(** * ts-advanced-types: a shallow embedding of [src/app.ts]

    [app.ts] is a script of small demonstrations: type guards ([in],
    [instanceof], [typeof]), a discriminated union, type casts on DOM lookups,
    function overloads, optional chaining and nullish coalescing.  TypeScript
    types are erased before the script runs, so the embedding is of the
    JavaScript that remains: the functions of the file become Rocq functions
    over JavaScript values, console output and DOM writes are recorded in an
    explicit world, and a [TypeError] is an explicit completion.

    Layout: numbers (IEEE 754 binary64 with the ECMAScript printing
    algorithm), values and the operators the script uses, the world and its
    monad, the functions and statements of [app.ts] in source order, then the
    theorems. *)

From Stdlib Require Import ZArith QArith Qround Qabs String Ascii List.
From Stdlib Require Import SpecFloat DecimalString.
From stdpp Require Import base gmap strings list.

(** ** Numbers

    A JavaScript number is an IEEE 754 binary64 value with a single NaN:
    Stdlib's [spec_float] at precision 53, in canonical form, which
    [of_dyadic] produces and [add] preserves.  [Number.add] is the [+] of two
    numbers, [Number.toString] is [Number::toString] with radix 10. *)
Module Number.
Local Open Scope Z_scope.

Definition prec : Z := 53.
Definition emax : Z := 1024.

Definition number : Type := spec_float.

Definition NaN : number := S754_nan.
Definition zero : number := S754_zero false.

(** The number nearest to [m * 2^e]; numeric literals are written with it. *)
Definition of_dyadic (m e : Z) : number := binary_normalize prec emax m e false.
Definition of_Z (z : Z) : number := of_dyadic z 0.

Definition add (x y : number) : number := SFadd prec emax x y.

(** *** Number::toString

    For a finite non-zero [x] the specification asks for integers [n], [k],
    [s] with [k >= 1], [10^(k-1) <= s < 10^k], [s * 10^(n-k)] rounding to
    [x], and [k] as small as possible ([s] closest to [x] when several
    fit); the digits of [s] are then laid out according to [n]. *)
Definition Qltb (a b : Q) : bool := negb (Qle_bool b a).
Definition pow10 (n : Z) : Q := Qpower (inject_Z 10) n.
Definition pow2 (n : Z) : Q := Qpower (inject_Z 2) n.

(** [rounds_to m e d]: the real [d] rounds, to nearest with ties to even,
    to the number [m * 2^e].  The interval below [x] is half as wide when
    [x] is a power of two above the subnormal range. *)
Definition rounds_to (m : positive) (e : Z) (d : Q) : bool :=
  let boundary := Pos.eqb m (2 ^ 52) && (-1074 <? e) in
  let below := if boundary then 4 * Zpos m - 1 else 4 * Zpos m - 2 in
  let lo := Qmult (inject_Z below) (pow2 (e - 2)) in
  let hi := Qmult (inject_Z (4 * Zpos m + 2)) (pow2 (e - 2)) in
  if Z.even (Zpos m) then Qle_bool lo d && Qle_bool d hi
  else Qltb lo d && Qltb d hi.

(** The least [n], counting up from the start value, with [x < 10^n]. *)
Fixpoint magnitude (fuel : nat) (n : Z) (x : Q) : Z :=
  match fuel with
  | O => n
  | S fuel' => if Qltb x (pow10 n) then n else magnitude fuel' (n + 1) x
  end.

(** The pairs [(s, n)] with [s] of exactly [k] digits next to [x] on the
    grid of step [10^(n-k)] that round to [x]. *)
Definition candidates (m : positive) (e : Z) (x : Q) (n0 k : Z) : list (Z * Z) :=
  n ← [n0 - 1; n0; n0 + 1];
  s ← (let f := Qfloor (Qdiv x (pow10 (n - k))) in [f; f + 1]);
  if (10 ^ (k - 1) <=? s) && (s <? 10 ^ k)
     && rounds_to m e (Qmult (inject_Z s) (pow10 (n - k)))
  then [(s, n)] else [].

Definition closer (x : Q) (k : Z) (a b : Z * Z) : Z * Z :=
  let da := Qabs (Qminus (Qmult (inject_Z a.1) (pow10 (a.2 - k))) x) in
  let db := Qabs (Qminus (Qmult (inject_Z b.1) (pow10 (b.2 - k))) x) in
  if Qltb da db then a
  else if Qltb db da then b
  else if Z.even a.1 then a else b.

Fixpoint shortest (fuel : nat) (m : positive) (e : Z) (x : Q) (n0 k : Z)
  : option (Z * Z * Z) :=
  match fuel with
  | O => None
  | S fuel' =>
      match candidates m e x n0 k with
      | [] => shortest fuel' m e x n0 (k + 1)
      | c :: cs => let '(s, n) := foldl (closer x k) c cs in Some (s, n, k)
      end
  end.

Definition digits (s : Z) : string := NilZero.string_of_uint (N.to_uint (Z.to_N s)).
Definition zeros (n : Z) : string := String.concat "" (replicate (Z.to_nat n) "0"%string).
Definition take (n : Z) (s : string) : string := String.substring 0 (Z.to_nat n) s.
Definition drop (n : Z) (s : string) : string :=
  String.substring (Z.to_nat n) (String.length s - Z.to_nat n) s.

Definition layout (s n k : Z) : string :=
  let ds := digits s in
  if (k <=? n) && (n <=? 21) then ds +:+ zeros (n - k)
  else if (0 <? n) && (n <=? 21) then take n ds +:+ "." +:+ drop n ds
  else if (-6 <? n) && (n <=? 0) then "0." +:+ zeros (- n) +:+ ds
  else
    let ex := (if 0 <? n - 1 then "+" else "-") +:+ digits (Z.abs (n - 1)) in
    if k =? 1 then ds +:+ "e" +:+ ex
    else take 1 ds +:+ "." +:+ drop 1 ds +:+ "e" +:+ ex.

Definition toString (x : number) : string :=
  match x with
  | S754_nan => "NaN"
  | S754_zero _ => "0"
  | S754_infinity sg => if sg then "-Infinity" else "Infinity"
  | S754_finite sg m e =>
      let q := Qmult (inject_Z (Zpos m)) (pow2 e) in
      match shortest 17 m e q (magnitude 700 (-330) q) 1 with
      | Some (s, n, k) => (if sg then "-" else "") +:+ layout s n k
      | None => "NaN"
      end
  end.
End Number.

Abbreviation number := Number.number.

(** ** Values

    The values the script builds and passes around: primitives, plain data
    objects (their own properties, keyed by name), arrays and [Date]s.  A
    [Date] is kept as the text its [toString] renders, which is all that can
    be observed of it here and depends on the host's time zone.  Functions
    are not values of the model, so the members that objects inherit from the
    built-in prototypes ([toString], [length], ...) cannot be read as
    properties; no key used in [app.ts] is such a member. *)
#[warnings="-register-all"]
Inductive value : Type :=
| VUndefined
| VNull
| VBool (b : bool)
| VNum (n : number)
| VStr (s : string)
| VObj (props : gmap string value)
| VArr (elems : list value)
| VDate (shown : string).

(** What can be thrown: a [TypeError] by the language, and the
    [InvalidStateError] exception of the DOM by the host. *)
Inductive error : Type :=
| TypeError
| InvalidStateError.

(** The outcome of evaluating an expression or running a statement. *)
Inductive completion (A : Type) : Type :=
| Normal (a : A)
| Throw (e : error).
Arguments Normal {A} a.
Arguments Throw {A} e.

#[global] Instance completion_ret : MRet completion := λ A a, Normal a.
#[global] Instance completion_bind : MBind completion := λ A B f c,
  match c with
  | Normal a => f a
  | Throw e => Throw e
  end.

(** *** Operators *)

Definition typeof (v : value) : string :=
  match v with
  | VUndefined => "undefined"
  | VBool _ => "boolean"
  | VNum _ => "number"
  | VStr _ => "string"
  | VNull | VObj _ | VArr _ | VDate _ => "object"
  end.

Definition is_nullish (v : value) : bool :=
  match v with
  | VUndefined | VNull => true
  | _ => false
  end.

Definition ToBoolean (v : value) : bool :=
  match v with
  | VUndefined | VNull => false
  | VBool b => b
  | VNum (S754_zero _) | VNum S754_nan => false
  | VNum _ => true
  | VStr s => negb (String.eqb s "")
  | VObj _ | VArr _ | VDate _ => true
  end.

(** [ToString].  An object is converted through its [toString] method: a plain
    object inherits one that answers ["[object Object]"] unless an own
    property of that name shadows it, and such a property cannot be callable
    here, which is a [TypeError]; an array joins its elements with commas,
    [undefined] and [null] elements contributing the empty string. *)
Fixpoint ToString (v : value) : completion string :=
  match v with
  | VUndefined => Normal "undefined"
  | VNull => Normal "null"
  | VBool b => Normal (if b then "true" else "false")
  | VNum n => Normal (Number.toString n)
  | VStr s => Normal s
  | VObj props =>
      match props !! "toString" with
      | Some _ => Throw TypeError
      | None => Normal "[object Object]"
      end
  | VArr elems =>
      texts ← (fix each (l : list value) : completion (list string) :=
                 match l with
                 | [] => Normal []
                 | x :: l' =>
                     s ← (if is_nullish x then Normal "" else ToString x);
                     ss ← each l';
                     Normal (s :: ss)
                 end) elems;
      Normal (String.concat "," texts)
  | VDate shown => Normal shown
  end.

Definition ToPrimitive (v : value) : completion value :=
  match v with
  | VObj _ | VArr _ | VDate _ => s ← ToString v; Normal (VStr s)
  | _ => Normal v
  end.

(** [ToNumber] on the primitives that are not strings: [undefined] is NaN,
    [null] is zero, a Boolean is one or zero.  No string reaches it: [js_plus]
    is its only user and concatenates as soon as an operand is a string. *)
Definition ToNumber (p : value) : number :=
  match p with
  | VNull => Number.zero
  | VBool b => if b then Number.of_Z 1 else Number.zero
  | VNum n => n
  | _ => Number.NaN
  end.

(** The binary [+]. *)
Definition js_plus (a b : value) : completion value :=
  pa ← ToPrimitive a;
  pb ← ToPrimitive b;
  match pa, pb with
  | VStr _, _ | _, VStr _ =>
      sa ← ToString pa;
      sb ← ToString pb;
      Normal (VStr (sa +:+ sb))
  | _, _ => Normal (VNum (Number.add (ToNumber pa) (ToNumber pb)))
  end.

(** [v === "literal"]. *)
Definition strict_eq_string (v : value) (literal : string) : bool :=
  match v with
  | VStr s => String.eqb s literal
  | _ => false
  end.

(** [v.key]: reading a property of [undefined] or [null] throws. *)
Definition Get (v : value) (key : string) : completion value :=
  match v with
  | VUndefined | VNull => Throw TypeError
  | VObj props => Normal (default VUndefined (props !! key))
  | _ => Normal VUndefined
  end.

(** [key in v]: the right operand must be an object. *)
Definition HasProperty (key : string) (v : value) : completion bool :=
  match v with
  | VObj props =>
      Normal (match props !! key with
              | Some _ => true
              | None => false
              end)
  | VArr _ | VDate _ => Normal false
  | _ => Throw TypeError
  end.

(** [v.toString()]. *)
Definition toString (v : value) : completion string :=
  if is_nullish v then Throw TypeError else ToString v.

(** [a ?? b] and [a || b], for a right operand that is already a value (the
    script's right operands are string literals). *)
Definition nullish_coalesce (a b : value) : value :=
  if is_nullish a then b else a.

Definition logical_or (a b : value) : value :=
  if ToBoolean a then a else b.

(** [a && b]: the right operand is evaluated only when the left one is
    truthy. *)
Definition logical_and (a : value) (b : completion value) : completion value :=
  if ToBoolean a then b else Normal a.

(** [s.split(separator)] without a limit: the pieces of [s] between the
    occurrences of the separator, found from left to right; an empty
    separator splits between all characters.  A string is a sequence of
    bytes here and of UTF-16 code units in JavaScript; the two agree on
    ASCII text, which is what the script splits. *)
Fixpoint pieces (separator : string) (skip : nat) (piece : string) (s : string)
  : list string :=
  match s with
  | EmptyString => [String.rev piece]
  | String c s' =>
      match skip with
      | S skip' => pieces separator skip' piece s'
      | O =>
          if String.prefix separator s
          then String.rev piece :: pieces separator (String.length separator - 1) "" s'
          else pieces separator 0 (String c piece) s'
      end
  end.

Fixpoint characters (s : string) : list string :=
  match s with
  | EmptyString => []
  | String c s' => String c "" :: characters s'
  end.

Definition split (s separator : string) : list string :=
  if String.eqb separator "" then characters s else pieces separator 0 "" s.

(** ** The world

    What the script does to its surroundings: lines written with
    [console.log] and method calls, in the order they happen, and the
    elements of the document, each with the fields it currently carries.

    Some elements have a [value] attribute of their own (inputs, text areas,
    progress bars, ...), and what assigning to it does is up to the host: it
    may store the text, rewrite it, change other fields and other elements,
    or throw.  [setters] holds, for each such element, that behaviour: from
    the value assigned and the page to the page afterwards, or to the
    exception.  An element without an entry has no [value] attribute. *)
Inductive event : Type :=
| Log (args : list value)
| Invoke (class method : string) (args : list value)
| Assign (id field : string) (v : value).

Record world : Type := World {
  trace : list event;
  document : gmap string (gmap string value);
  setters :
    gmap string (value → gmap string (gmap string value) →
                 completion (gmap string (gmap string value)))
}.

Definition M (A : Type) : Type := world → completion A * world.

#[global] Instance M_ret : MRet M := λ A a w, (Normal a, w).
#[global] Instance M_bind : MBind M := λ A B f m w,
  match m w with
  | (Normal a, w') => f a w'
  | (Throw e, w') => (Throw e, w')
  end.

Definition lift {A : Type} (c : completion A) : M A := λ w, (c, w).

Definition throw {A : Type} (e : error) : M A := lift (Throw e).

Definition emit (ev : event) : M unit := λ w,
  (Normal tt,
   {| trace := trace w ++ [ev]; document := document w; setters := setters w |}).

Definition console_log (args : list value) : M unit := emit (Log args).

(** The world [w] after the further events [evs]. *)
Definition after (w : world) (evs : list event) : world :=
  {| trace := trace w ++ evs; document := document w; setters := setters w |}.

(** The world the script starts in when the page is [page] and none of its
    elements has a [value] attribute. *)
Definition initial (page : gmap string (gmap string value)) : world :=
  {| trace := []; document := page; setters := ∅ |}.

(** Whether a line with the given label was logged. *)
Definition printed (label : string) (evs : list event) : bool :=
  existsb (λ ev, match ev with
                 | Log (first :: _) => strict_eq_string first label
                 | _ => false
                 end) evs.

Definition is_Invoke (method : string) (ev : event) : bool :=
  match ev with
  | Invoke _ m _ => String.eqb m method
  | _ => false
  end.

Definition is_Assign (ev : event) : bool :=
  match ev with
  | Assign _ _ _ => true
  | _ => false
  end.

(** How often a method was called, and how many field writes were made. *)
Definition invocations (method : string) (t : list event) : nat :=
  length (List.filter (is_Invoke method) t).

Definition writes (t : list event) : nat :=
  length (List.filter is_Assign t).

(** *** The document

    [document.getElementById] answers an element of the document or [null].
    [h.value = v] throws on [null]. On an element it is recorded as a write
    and then carried out: an element without a [value] attribute is an
    extensible object and gains or updates an own field holding [v]; for an
    element with one, the host's setter decides, and when it throws the page
    stays as it was. *)
Inductive handle : Type :=
| Null
| Element (id : string).

Definition getElementById (id : string) : M handle := λ w,
  (Normal (match document w !! id with
           | Some _ => Element id
           | None => Null
           end), w).

Definition handle_ToBoolean (h : handle) : bool :=
  match h with
  | Null => false
  | Element _ => true
  end.

Definition set_value (h : handle) (v : value) : M unit :=
  match h with
  | Null => throw TypeError
  | Element id => λ w,
      let attempted := trace w ++ [Assign id "value" v] in
      match setters w !! id with
      | None =>
          (Normal tt,
           {| trace := attempted;
              document := alter (insert "value" v) id (document w);
              setters := setters w |})
      | Some setter =>
          match setter v (document w) with
          | Normal page =>
              (Normal tt,
               {| trace := attempted; document := page; setters := setters w |})
          | Throw e =>
              (Throw e,
               {| trace := attempted; document := document w;
                  setters := setters w |})
          end
      end
  end.

(** Two setters of the host, as HTML defines them.  The [value] of an input
    is a string attribute that reads [null] as the empty string.  An
    [<input type="text">] stores the text without its line breaks; an
    [<input type="file">] accepts only the empty string, which clears the
    selection, and throws an [InvalidStateError] otherwise. *)
Definition DOMString (v : value) : completion string :=
  match v with
  | VNull => Normal ""
  | _ => ToString v
  end.

Fixpoint strip_newlines (s : string) : string :=
  match s with
  | EmptyString => EmptyString
  | String c s' =>
      if Ascii.eqb c "010" || Ascii.eqb c "013" then strip_newlines s'
      else String c (strip_newlines s')
  end.

Definition text_setter (id : string) (v : value)
  (page : gmap string (gmap string value))
  : completion (gmap string (gmap string value)) :=
  text ← DOMString v;
  Normal (alter (insert "value" (VStr (strip_newlines text))) id page).

Definition file_setter (v : value) (page : gmap string (gmap string value))
  : completion (gmap string (gmap string value)) :=
  text ← DOMString v;
  if String.eqb text "" then Normal page else Throw InvalidStateError.

(** ** The script [app.ts] *)

(** *** Intersection types and type guards (lines 14-66) *)

(** [e1]; [new Date()] reads the clock, so the date is an argument. *)
Definition e1 (today : string) : value :=
  VObj {[ "name" := VStr "Geo";
          "privileges" := VArr [VStr "create-server"];
          "startDate" := VDate today ]}.

Definition printEmployeeInformation (emp : value) : M unit :=
  name ← lift (Get emp "name");
  console_log [VStr "Name: "; name];;
  has_privileges ← lift (HasProperty "privileges" emp);
  (if has_privileges : bool
   then privileges ← lift (Get emp "privileges");
        console_log [VStr "Privileges: "; privileges]
   else mret tt);;
  has_startDate ← lift (HasProperty "startDate" emp);
  if has_startDate : bool
  then startDate ← lift (Get emp "startDate");
       console_log [VStr "Start Date: "; startDate]
  else mret tt.

(** *** Classes and [instanceof] (lines 68-98)

    [Car] and [Truck] declare no fields, so an instance is known by its
    class.  A method call looks the method up in the class and is recorded
    before the body runs; calling a method the class lacks throws. *)
Inductive Vehicle : Type :=
| Car
| Truck.

Definition class_name (vehicle : Vehicle) : string :=
  match vehicle with
  | Car => "Car"
  | Truck => "Truck"
  end.

Definition Car_drive (args : list value) : M unit :=
  console_log [VStr "Driving..."].

Definition Truck_drive (args : list value) : M unit :=
  console_log [VStr "Driving a truck..."].

Definition Truck_loadCargo (args : list value) : M unit :=
  let amount := nth 0 args VUndefined in
  line ← lift (js_plus (VStr "loading cargo...") amount);
  console_log [line].

Definition method (vehicle : Vehicle) (name : string) : option (list value → M unit) :=
  match vehicle with
  | Car => if String.eqb name "drive" then Some Car_drive else None
  | Truck =>
      if String.eqb name "drive" then Some Truck_drive
      else if String.eqb name "loadCargo" then Some Truck_loadCargo
      else None
  end.

Definition call (vehicle : Vehicle) (name : string) (args : list value) : M unit :=
  match method vehicle name with
  | Some body => emit (Invoke (class_name vehicle) name args);; body args
  | None => throw TypeError
  end.

(** Neither class extends the other. *)
Definition instanceof (vehicle : Vehicle) (class : string) : bool :=
  String.eqb (class_name vehicle) class.

Definition v1 : Vehicle := Car.
Definition v2 : Vehicle := Truck.

Definition useVehicle (vehicle : Vehicle) : M unit :=
  call vehicle "drive" [];;
  if instanceof vehicle "Truck"
  then call vehicle "loadCargo" [VNum (Number.of_Z 1000)]
  else mret tt.

(** *** Discriminated union (lines 105-133)

    The values of the declared type [Animal], and what they are at run
    time. *)
Inductive Animal : Type :=
| Bird (flyingSpeed : number)
| Horse (runningSpeed : number).

Definition Animal_value (animal : Animal) : value :=
  match animal with
  | Bird flyingSpeed =>
      VObj {[ "type" := VStr "bird"; "flyingSpeed" := VNum flyingSpeed ]}
  | Horse runningSpeed =>
      VObj {[ "type" := VStr "horse"; "runningSpeed" := VNum runningSpeed ]}
  end.

Definition moveAnimal (animal : value) : M unit :=
  type ← lift (Get animal "type");
  speed ← (if strict_eq_string type "bird" then lift (Get animal "flyingSpeed")
           else if strict_eq_string type "horse" then lift (Get animal "runningSpeed")
           else mret VUndefined);
  line ← lift (js_plus (VStr "Moving with speed: ") speed);
  console_log [line].

(** The last two statements of [moveAnimal], once [speed] is set. *)
Definition report (speed : value) : M unit :=
  line ← lift (js_plus (VStr "Moving with speed: ") speed);
  console_log [line].

(** *** Type casting (lines 154-167)

    Each definition is the pair of statements that declares the constant of
    that name and then writes through it.  The casts and the non-null
    assertion [!] are erased: what runs is the lookup and the assignment,
    in [userInputElement3] under the [if]. *)
Definition userInputElement1 : M unit :=
  element ← getElementById "user-input";
  set_value element (VStr "Hi there!").

Definition userInputElement2 : M unit :=
  element ← getElementById "user-input";
  set_value element (VStr "Hi there!").

Definition userInputElement3 : M unit :=
  element ← getElementById "user-input";
  if handle_ToBoolean element
  then set_value element (VStr "Hi there!")
  else mret tt.

(** The world after the text is stored in the [value] field of the element
    [element] found under ["user-input"]. *)
Definition written (w : world) (element : gmap string value) : world :=
  {| trace := trace w ++ [Assign "user-input" "value" (VStr "Hi there!")];
     document := <["user-input" := <["value" := VStr "Hi there!"]> element]> (document w);
     setters := setters w |}.

(** The element [id] takes the text as it is: it has no [value] attribute of
    its own, or its setter stores exactly this text in its [value] field and
    changes nothing else, on whatever page. *)
Definition takes_text (w : world) (id text : string) : Prop :=
  match setters w !! id with
  | None => True
  | Some setter =>
      ∀ page, setter (VStr text) page =
                Normal (alter (insert "value" (VStr text)) id page)
  end.

(** A page whose element ["user-input"] is a paragraph: present, without a
    [value] field. *)
Definition paragraph : gmap string value := {[ "tagName" := VStr "P" ]}.

Definition paragraph_page : gmap string (gmap string value) :=
  {[ "user-input" := paragraph ]}.

(** *** Function overloads (lines 190-204) *)
Definition add (a b : value) : completion value :=
  if String.eqb (typeof a) "string" || String.eqb (typeof b) "string"
  then sa ← toString a;
       sb ← toString b;
       js_plus (VStr sa) (VStr sb)
  else js_plus a b.

(** The declared parameter type [Combinable = string | number]. *)
Inductive Combinable : Type :=
| CStr (s : string)
| CNum (n : number).

Definition Combinable_value (c : Combinable) : value :=
  match c with
  | CStr s => VStr s
  | CNum n => VNum n
  end.

(** The textual representation of an input: what [toString()] answers. *)
Definition Combinable_text (c : Combinable) : string :=
  match c with
  | CStr s => s
  | CNum n => Number.toString n
  end.

Definition result : completion value :=
  add (VNum (Number.of_Z 1)) (VNum (Number.of_Z 5)).

Definition result2 : completion value :=
  add (VStr "Geo") (VStr " Sauer").

(** *** Optional chaining (lines 207-220) *)
Definition fetchedUserData : value :=
  VObj {[ "id" := VStr "u1";
          "name" := VStr "Geo";
          "job" := VObj {[ "title" := VStr "CEO";
                           "description" := VStr "My own company" ]} ]}.

(** [base?.k1?.k2 ...], every link optional. *)
Fixpoint optional_chain (base : value) (path : list string) : completion value :=
  match path with
  | [] => Normal base
  | key :: path' =>
      if is_nullish base then Normal VUndefined
      else next ← Get base key; optional_chain next path'
  end.

(** [base.k1.k2 ...]. *)
Fixpoint chain (base : value) (path : list string) : completion value :=
  match path with
  | [] => Normal base
  | key :: path' => next ← Get base key; chain next path'
  end.

(** Lines 214, 217 and 220, for any fetched data. *)
Definition log_job_title (data : value) : M unit :=
  title ← lift (chain data ["job"; "title"]);
  console_log [title].

Definition log_job_title_guarded (data : value) : M unit :=
  title ← lift (job ← Get data "job";
                logical_and job (job' ← Get data "job"; Get job' "title"));
  console_log [title].

Definition log_job_title_optional (data : value) : M unit :=
  title ← lift (optional_chain data ["job"; "title"]);
  console_log [title].

(** *** Nullish coalescing (lines 223-231) *)
Definition userInput : value := VNull.

Definition storedData_of (userInput : value) : value :=
  logical_or userInput (VStr "DEFAULT").

Definition storedDatas_of (userInput : value) : value :=
  nullish_coalesce userInput (VStr "DEFAULT").

Definition storedData : value := storedData_of userInput.
Definition storedDatas : value := storedDatas_of userInput.

(** *** Further definitions

    The three blocks of lines 154-167 as the script runs them, one after
    the other. *)
Definition casts : M unit :=
  userInputElement1;; userInputElement2;; userInputElement3.

(** The field [field] of the element [id] of the page, when both exist. *)
Definition field_of (w : world) (id field : string) : option value :=
  element ← document w !! id; element !! field.

(** The lines written to the console among the events [evs]. *)
Definition console (evs : list event) : list (list value) :=
  omap (λ ev, match ev with
              | Log args => Some args
              | _ => None
              end) evs.

(** A statement that only writes to the console: in any world it appends
    what it appends in the empty one, and completes the same way. *)
Definition console_only {A : Type} (m : M A) : Prop :=
  ∀ w : world, m w = ((m (initial ∅)).1, after w (trace (m (initial ∅)).2)).

(** A page with an input that holds a draft, and a message paragraph. *)
Definition form_page : gmap string (gmap string value) :=
  {[ "user-input" := {[ "value" := VStr "draft"; "tagName" := VStr "INPUT" ]};
     "message-output" := paragraph ]}.

(** The form page with a text input, and a page whose input is a file
    input with nothing selected. *)
Definition form_world : world :=
  {| trace := [];
     document := form_page;
     setters := {[ "user-input" := text_setter "user-input" ]} |}.

Definition upload_page : gmap string (gmap string value) :=
  {[ "user-input" := {[ "value" := VStr ""; "tagName" := VStr "INPUT";
                        "type" := VStr "file" ]} ]}.

Definition upload_world : world :=
  {| trace := [];
     document := upload_page;
     setters := {[ "user-input" := file_setter ]} |}.

(** * Theorems *)

(** ** Numbers *)

Arguments Number.toString : simpl never.

(** The printing algorithm on the literals of the script, on the classic
    rounding example [0.1 + 0.2], and at the ends of the layouts and of the
    range. *)
Example toString_literals :
  map Number.toString
      [Number.of_Z 6; Number.of_Z 1000; Number.of_dyadic 55 (-1);
       Number.add (Number.of_dyadic 3602879701896397 (-55))
                  (Number.of_dyadic 3602879701896397 (-54));
       Number.of_Z (10 ^ 20); Number.of_Z (10 ^ 21);
       Number.of_Z 123456789012345680000;
       Number.of_dyadic (-1) (-20);
       Number.of_dyadic 1 (-1074); Number.of_dyadic (2 ^ 53 - 1) 971;
       Number.of_Z (2 ^ 53); Number.of_Z (2 ^ 1024); Number.of_Z 0]
  = ["6"; "1000"; "27.5"; "0.30000000000000004";
     "100000000000000000000"; "1e+21"; "123456789012345680000";
     "-9.5367431640625e-7";
     "5e-324"; "1.7976931348623157e+308";
     "9007199254740992"; "Infinity"; "0"]%string.
Proof. vm_compute. reflexivity. Qed.

Lemma Number_add_comm (x y : number) : Number.add x y = Number.add y x.
Proof.
  unfold Number.add, SFadd.
  destruct x as [sx | sx | | sx mx ex], y as [sy | sy | | sy my ey];
    try reflexivity; try (destruct sx, sy; reflexivity).
  rewrite (Z.min_comm ey ex). f_equal. apply Z.add_comm.
Qed.

(** ** Operators *)

Lemma toString_Combinable (c : Combinable) :
  toString (Combinable_value c) = Normal (Combinable_text c).
Proof. destruct c; reflexivity. Qed.

Lemma js_plus_string_l (s : string) (v : value) :
  js_plus (VStr s) v = (text ← ToString v; Normal (VStr (s +:+ text))).
Proof.
  unfold js_plus. destruct v; try reflexivity;
    unfold ToPrimitive; destruct (ToString _); reflexivity.
Qed.

Lemma js_plus_numbers (x y : number) :
  js_plus (VNum x) (VNum y) = Normal (VNum (Number.add x y)).
Proof. reflexivity. Qed.

(** [split] on separators of one and of several characters, at the ends of
    the string, and on the empty separator. *)
Example split_pieces :
  split "a, b, c" ", " = ["a"; "b"; "c"]%string
  ∧ split " a " " " = [""; "a"; ""]%string
  ∧ split "" " " = [""]%string
  ∧ split "abc" "" = ["a"; "b"; "c"]%string.
Proof. repeat split. Qed.

(** ** Function overloads *)

(** C1. On inputs that are numbers or strings, [add] answers the sum of two
    numbers and otherwise the concatenation of the texts of both inputs, in
    the order given; [add(1, 5)] is [6], [add("Geo", " Sauer")] is the string
    ["Geo Sauer"], which [split(" ")] then cuts into ["Geo"] and ["Sauer"]. *)
Theorem add_resolution :
  (∀ a b : Combinable,
     add (Combinable_value a) (Combinable_value b) =
       Normal (match a, b with
               | CNum x, CNum y => VNum (Number.add x y)
               | _, _ => VStr (Combinable_text a +:+ Combinable_text b)
               end))
  ∧ result = Normal (VNum (Number.of_Z 6))
  ∧ result2 = Normal (VStr "Geo Sauer")
  ∧ (∃ s, result2 = Normal (VStr s) ∧ split s " " = ["Geo"; "Sauer"]%string).
Proof.
  split; [| split; [| split]].
  - intros [s | x] [t | y]; reflexivity.
  - reflexivity.
  - reflexivity.
  - exists "Geo Sauer"%string. split; reflexivity.
Qed.

(** The mixed rows of the overload table. *)
Example add_mixed :
  add (VStr "Geo") (VNum (Number.of_Z 5)) = Normal (VStr "Geo5")
  ∧ add (VNum (Number.of_dyadic 55 (-1))) (VStr " mph") = Normal (VStr "27.5 mph").
Proof. vm_compute. split; reflexivity. Qed.

(** C10. [add] is commutative on two numbers, and not on strings. *)
Theorem add_numeric_commutative :
  (∀ a b : number, add (VNum a) (VNum b) = add (VNum b) (VNum a))
  ∧ add (VStr "Geo") (VStr " Sauer") ≠ add (VStr " Sauer") (VStr "Geo").
Proof.
  split.
  - intros a b. change (add (VNum a) (VNum b)) with (js_plus (VNum a) (VNum b)).
    change (add (VNum b) (VNum a)) with (js_plus (VNum b) (VNum a)).
    rewrite !js_plus_numbers, Number_add_comm. reflexivity.
  - discriminate.
Qed.

(** ** Running statements *)

Ltac run :=
  unfold mbind, M_bind, mret, M_ret, lift, throw, console_log, emit, after;
  simpl.

(** ** Discriminated union *)

Lemma report_number (n : number) (w : world) :
  report (VNum n) w =
    (Normal tt, after w [Log [VStr ("Moving with speed: " +:+ Number.toString n)]]).
Proof. reflexivity. Qed.

Lemma report_undefined (w : world) :
  report VUndefined w =
    (Normal tt, after w [Log [VStr "Moving with speed: undefined"]]).
Proof. reflexivity. Qed.

Lemma moveAnimal_bird (props : gmap string value) (w : world) :
  props !! "type" = Some (VStr "bird") →
  moveAnimal (VObj props) w = report (default VUndefined (props !! "flyingSpeed")) w.
Proof. intros Htype. unfold moveAnimal, report. run. rewrite Htype. reflexivity. Qed.

Lemma moveAnimal_horse (props : gmap string value) (w : world) :
  props !! "type" = Some (VStr "horse") →
  moveAnimal (VObj props) w = report (default VUndefined (props !! "runningSpeed")) w.
Proof. intros Htype. unfold moveAnimal, report. run. rewrite Htype. reflexivity. Qed.

Lemma moveAnimal_other (props : gmap string value) (w : world) :
  default VUndefined (props !! "type") ≠ VStr "bird" →
  default VUndefined (props !! "type") ≠ VStr "horse" →
  moveAnimal (VObj props) w = report VUndefined w.
Proof.
  intros Hbird Hhorse. unfold moveAnimal, report. run.
  destruct (default VUndefined (props !! "type")) as [| | | | tag | | |];
    try reflexivity.
  simpl. destruct (String.eqb_spec tag "bird") as [-> | _]; [done |].
  destruct (String.eqb_spec tag "horse") as [-> | _]; [done |].
  reflexivity.
Qed.

Lemma moveAnimal_typed (animal : Animal) (w : world) :
  moveAnimal (Animal_value animal) w =
    report (VNum match animal with
                 | Bird flyingSpeed => flyingSpeed
                 | Horse runningSpeed => runningSpeed
                 end) w.
Proof.
  destruct animal; unfold Animal_value.
  - by rewrite moveAnimal_bird.
  - by rewrite moveAnimal_horse.
Qed.

(** C2. A value tagged ["bird"] is reported with the number in its
    [flyingSpeed] field, a value tagged ["horse"] with the number in its
    [runningSpeed] field. *)
Theorem moveAnimal_reports_variant_speed
  (props : gmap string value) (n : number) (w : world) :
  (props !! "type" = Some (VStr "bird") →
   props !! "flyingSpeed" = Some (VNum n) →
   moveAnimal (VObj props) w =
     (Normal tt, after w [Log [VStr ("Moving with speed: " +:+ Number.toString n)]]))
  ∧ (props !! "type" = Some (VStr "horse") →
     props !! "runningSpeed" = Some (VNum n) →
     moveAnimal (VObj props) w =
       (Normal tt, after w [Log [VStr ("Moving with speed: " +:+ Number.toString n)]])).
Proof.
  split; intros Htype Hspeed.
  - rewrite moveAnimal_bird, Hspeed by done. apply report_number.
  - rewrite moveAnimal_horse, Hspeed by done. apply report_number.
Qed.

(** The call on line 133 and a horse, on an empty page. *)
Lemma moveAnimal_reports_variant_speed_witness :
  moveAnimal (Animal_value (Bird (Number.of_dyadic 55 (-1)))) (initial ∅) =
    (Normal tt, after (initial ∅) [Log [VStr "Moving with speed: 27.5"]])
  ∧ moveAnimal (Animal_value (Horse (Number.of_Z 40))) (initial ∅) =
      (Normal tt, after (initial ∅) [Log [VStr "Moving with speed: 40"]]).
Proof.
  split.
  - destruct (moveAnimal_reports_variant_speed
                {[ "type" := VStr "bird";
                   "flyingSpeed" := VNum (Number.of_dyadic 55 (-1)) ]}
                (Number.of_dyadic 55 (-1)) (initial ∅)) as [Hbird _].
    unfold Animal_value. rewrite Hbird; [| vm_compute; reflexivity ..].
    vm_compute. reflexivity.
  - destruct (moveAnimal_reports_variant_speed
                {[ "type" := VStr "horse";
                   "runningSpeed" := VNum (Number.of_Z 40) ]}
                (Number.of_Z 40) (initial ∅)) as [_ Hhorse].
    unfold Animal_value. rewrite Hhorse; [| vm_compute; reflexivity ..].
    vm_compute. reflexivity.
Defined.

(** C3, as the claim states it, fails: a value tagged ["fish"] is not
    rejected. [moveAnimal] completes normally and logs an undefined speed. *)
Lemma moveAnimal_fish_logs_undefined :
  moveAnimal (VObj {[ "type" := VStr "fish" ]}) (initial ∅) =
    (Normal tt, after (initial ∅) [Log [VStr "Moving with speed: undefined"]]).
Proof. vm_compute. reflexivity. Qed.

(** C3, amended. Every value of the declared type [Animal] is tagged
    ["bird"] or ["horse"], so the type rules the other tags out;
    [moveAnimal] itself checks nothing: on a value whose tag is neither it
    completes normally and logs ["Moving with speed: undefined"]. *)
Theorem moveAnimal_unmatched_discriminator :
  (∀ animal : Animal,
     Get (Animal_value animal) "type" = Normal (VStr "bird")
     ∨ Get (Animal_value animal) "type" = Normal (VStr "horse"))
  ∧ (∀ (props : gmap string value) (w : world),
       default VUndefined (props !! "type") ≠ VStr "bird" →
       default VUndefined (props !! "type") ≠ VStr "horse" →
       moveAnimal (VObj props) w =
         (Normal tt, after w [Log [VStr "Moving with speed: undefined"]])).
Proof.
  split.
  - intros [flyingSpeed | runningSpeed]; [left | right]; reflexivity.
  - intros props w Hbird Hhorse.
    rewrite moveAnimal_other by done. apply report_undefined.
Qed.

(** A fish with a speed of its own, on an empty page. *)
Lemma moveAnimal_unmatched_discriminator_witness :
  moveAnimal (VObj {[ "type" := VStr "fish"; "swimmingSpeed" := VNum (Number.of_Z 3) ]})
             (initial ∅) =
    (Normal tt, after (initial ∅) [Log [VStr "Moving with speed: undefined"]]).
Proof.
  destruct moveAnimal_unmatched_discriminator as [_ Hother].
  apply Hother; vm_compute; discriminate.
Defined.

(** ** Type guards *)

(** C4. For a record [emp], [printEmployeeInformation] logs the name line
    first and always, then the privileges line exactly when [emp] carries a
    [privileges] field, then the start-date line exactly when it carries a
    [startDate] field; each of the two depends on its own field only. *)
Theorem printEmployeeInformation_lines (props : gmap string value) (w : world) :
  ∃ lines : list event,
    printEmployeeInformation (VObj props) w = (Normal tt, after w lines)
    ∧ lines =
        [Log [VStr "Name: "; default VUndefined (props !! "name")]]
        ++ match props !! "privileges" with
           | Some privileges => [Log [VStr "Privileges: "; privileges]]
           | None => []
           end
        ++ match props !! "startDate" with
           | Some startDate => [Log [VStr "Start Date: "; startDate]]
           | None => []
           end
    ∧ printed "Name: " lines = true
    ∧ (printed "Privileges: " lines = true ↔ is_Some (props !! "privileges"))
    ∧ (printed "Start Date: " lines = true ↔ is_Some (props !! "startDate")).
Proof.
  eexists. split; [| split; [reflexivity |]].
  - unfold printEmployeeInformation. run.
    destruct (props !! "privileges"), (props !! "startDate"); simpl;
      unfold after; simpl; rewrite <- ?app_assoc; simpl;
      rewrite ?app_nil_r; try reflexivity; by destruct w.
  - destruct (props !! "privileges"), (props !! "startDate"); simpl;
      (split; [reflexivity |]); split; split;
      try done; try (intros _; eauto); try (intros [? [=]]).
Qed.

(** The two calls of lines 65 and 66, one after the other. *)
Example printEmployeeInformation_calls (today : string) :
  (printEmployeeInformation (e1 today);;
   printEmployeeInformation
     (VObj {[ "name" := VStr "Kallyn"; "startDate" := VDate today ]}))
    (initial ∅)
  = (Normal tt,
     after (initial ∅)
       [Log [VStr "Name: "; VStr "Geo"];
        Log [VStr "Privileges: "; VArr [VStr "create-server"]];
        Log [VStr "Start Date: "; VDate today];
        Log [VStr "Name: "; VStr "Kallyn"];
        Log [VStr "Start Date: "; VDate today]]).
Proof. vm_compute. reflexivity. Qed.

(** ** Classes *)

Lemma invocations_app (name : string) (t t' : list event) :
  invocations name (t ++ t') = invocations name t + invocations name t'.
Proof. unfold invocations. by rewrite List.filter_app, length_app. Qed.

Lemma useVehicle_Car (w : world) :
  useVehicle Car w =
    (Normal tt, after w [Invoke "Car" "drive" []; Log [VStr "Driving..."]]).
Proof. unfold useVehicle, call. run. unfold after. simpl. by rewrite <- app_assoc. Qed.

Lemma useVehicle_Truck (w : world) :
  useVehicle Truck w =
    (Normal tt,
     after w [Invoke "Truck" "drive" []; Log [VStr "Driving a truck..."];
              Invoke "Truck" "loadCargo" [VNum (Number.of_Z 1000)];
              Log [VStr ("loading cargo..." +:+ Number.toString (Number.of_Z 1000))]]).
Proof.
  unfold useVehicle, call. run. unfold Truck_loadCargo. run.
  unfold after. simpl. by rewrite <- !app_assoc.
Qed.

(** C5. One call of [useVehicle] calls [drive] exactly once; it calls
    [loadCargo] exactly once on a [Truck] and not at all on a [Car]. *)
Theorem useVehicle_invocations (vehicle : Vehicle) (w : world) :
  ∃ w' : world,
    useVehicle vehicle w = (Normal tt, w')
    ∧ invocations "drive" (trace w') = invocations "drive" (trace w) + 1
    ∧ invocations "loadCargo" (trace w') =
        invocations "loadCargo" (trace w)
        + match vehicle with
          | Truck => 1
          | Car => 0
          end.
Proof.
  destruct vehicle; eexists.
  - split; [apply useVehicle_Car |]. simpl. rewrite !invocations_app. done.
  - split; [apply useVehicle_Truck |]. simpl. rewrite !invocations_app. done.
Qed.

(** The calls of lines 97 and 98. *)
Example useVehicle_calls :
  (useVehicle v1;; useVehicle v2) (initial ∅) =
    (Normal tt,
     after (initial ∅)
       [Invoke "Car" "drive" []; Log [VStr "Driving..."];
        Invoke "Truck" "drive" []; Log [VStr "Driving a truck..."];
        Invoke "Truck" "loadCargo" [VNum (Number.of_Z 1000)];
        Log [VStr "loading cargo...1000"]]).
Proof. vm_compute. reflexivity. Qed.

(** ** Type casting *)

Lemma alter_present {A : Type} (f : A → A) (k : string) (x : A) (m : gmap string A) :
  m !! k = Some x → alter f k m = <[k := f x]> m.
Proof.
  intros Hk. apply map_eq. intros j. rewrite lookup_alter, lookup_insert.
  destruct (decide (k = j)) as [<- |]; [by rewrite Hk | done].
Qed.

Lemma writes_app (t t' : list event) : writes (t ++ t') = writes t + writes t'.
Proof. unfold writes. by rewrite List.filter_app, length_app. Qed.

Section Casting.

(** The world in which the statements run: any trace so far, any page, any
    host behaviour. *)
Variable w : world.

Lemma unguarded_write :
  userInputElement1 w =
    match document w !! "user-input" with
    | None => (Throw TypeError, w)
    | Some _ => set_value (Element "user-input") (VStr "Hi there!") w
    end.
Proof.
  unfold userInputElement1, getElementById. run.
  by destruct (document w !! "user-input").
Qed.

Lemma guarded_write :
  userInputElement3 w =
    match document w !! "user-input" with
    | None => (Normal tt, w)
    | Some _ => set_value (Element "user-input") (VStr "Hi there!") w
    end.
Proof.
  unfold userInputElement3, getElementById. run.
  by destruct (document w !! "user-input").
Qed.

Lemma set_value_trace :
  trace (set_value (Element "user-input") (VStr "Hi there!") w).2 =
    trace w ++ [Assign "user-input" "value" (VStr "Hi there!")].
Proof.
  simpl. destruct (setters w !! "user-input") as [setter |]; [| reflexivity].
  by destruct (setter (VStr "Hi there!") (document w)).
Qed.

Lemma set_value_taken (element : gmap string value) :
  document w !! "user-input" = Some element →
  takes_text w "user-input" "Hi there!" →
  set_value (Element "user-input") (VStr "Hi there!") w =
    (Normal tt, written w element).
Proof.
  intros Hfound Htakes. unfold takes_text in Htakes. unfold written. simpl.
  destruct (setters w !! "user-input") as [setter |].
  - by rewrite Htakes, (alter_present _ _ element).
  - by rewrite (alter_present _ _ element).
Qed.

(** C6. The guarded statement of lines 164-167: when the lookup finds
    nothing, it completes normally and leaves the world as it was, no write
    attempted; when it finds an element, exactly one write is made, of
    ["Hi there!"] to the element's [value] field, and for an element that
    takes the text (an input with a writable text value) the statement
    completes normally with the text stored. *)
Theorem userInputElement3_guarded :
  (document w !! "user-input" = None → userInputElement3 w = (Normal tt, w))
  ∧ (∀ element : gmap string value,
       document w !! "user-input" = Some element →
       trace (userInputElement3 w).2 =
         trace w ++ [Assign "user-input" "value" (VStr "Hi there!")]
       ∧ (takes_text w "user-input" "Hi there!" →
          userInputElement3 w = (Normal tt, written w element)))
  ∧ writes (trace (userInputElement3 w).2) =
      writes (trace w) + match document w !! "user-input" with
                         | None => 0
                         | Some _ => 1
                         end.
Proof.
  rewrite guarded_write. split; [| split].
  - by intros ->.
  - intros element Hfound. rewrite Hfound. split; [apply set_value_trace |].
    by apply set_value_taken.
  - destruct (document w !! "user-input").
    + rewrite set_value_trace, writes_app. reflexivity.
    + simpl. lia.
Qed.

(** C7, amended. The unguarded statements of lines 154-155 (and 158-159):
    when the lookup finds nothing, the write throws a [TypeError] there and
    then, the world as it was; when it finds an element that has no [value]
    attribute, the write is made, the element gains the field and nothing is
    thrown. *)
Theorem userInputElement1_unguarded :
  (document w !! "user-input" = None →
   userInputElement1 w = (Throw TypeError, w))
  ∧ (∀ element : gmap string value,
       document w !! "user-input" = Some element →
       setters w !! "user-input" = None →
       userInputElement1 w = (Normal tt, written w element))
  ∧ userInputElement2 w = userInputElement1 w.
Proof.
  rewrite unguarded_write. split; [| split].
  - by intros ->.
  - intros element Hfound Hplain. rewrite Hfound.
    apply set_value_taken; [done |]. unfold takes_text. by rewrite Hplain.
  - by rewrite <- unguarded_write.
Qed.

End Casting.

(** The form with a text input: the draft is replaced by the text. *)
Lemma userInputElement3_guarded_witness :
  userInputElement3 form_world =
    (Normal tt,
     written form_world {[ "value" := VStr "draft"; "tagName" := VStr "INPUT" ]}).
Proof.
  destruct (userInputElement3_guarded form_world) as (_ & Hpresent & _).
  destruct (Hpresent {[ "value" := VStr "draft"; "tagName" := VStr "INPUT" ]})
    as [_ Htaken]; [vm_compute; reflexivity |].
  apply Htaken. unfold takes_text, form_world. cbn [setters].
  rewrite lookup_singleton_eq. intros page. reflexivity.
Defined.

(** C7, as the claim states it, fails for an element that is present but has
    no [value] field (a paragraph, say): the unguarded write of line 155
    raises nothing and the element gains the field. *)
Lemma unguarded_write_on_paragraph :
  paragraph_page !! "user-input" = Some paragraph
  ∧ paragraph !! "value" = None
  ∧ setters (initial paragraph_page) !! "user-input" = None
  ∧ userInputElement1 (initial paragraph_page) =
      (Normal tt,
       {| trace := [Assign "user-input" "value" (VStr "Hi there!")];
          document := {[ "user-input" := <["value" := VStr "Hi there!"]> paragraph ]};
          setters := ∅ |}).
Proof.
  split; [reflexivity | split; [reflexivity | split; [reflexivity |]]].
  rewrite unguarded_write. unfold paragraph_page, initial.
  cbn [document]. rewrite lookup_singleton_eq.
  unfold set_value. cbn [setters trace document]. rewrite lookup_empty.
  rewrite (alter_present _ _ paragraph) by apply lookup_singleton_eq.
  by rewrite insert_singleton_eq.
Qed.

(** On the paragraph page: the lookup finds the paragraph, which has no
    [value] attribute. *)
Lemma userInputElement1_unguarded_witness :
  userInputElement1 (initial paragraph_page) =
    (Normal tt, written (initial paragraph_page) paragraph).
Proof.
  destruct (userInputElement1_unguarded (initial paragraph_page))
    as (_ & Hplain & _).
  apply Hplain; reflexivity.
Defined.

(** A file input does not take the text: the guarded write of lines 164-167
    throws the host's [InvalidStateError], and the page stays as it was. *)
Example guarded_write_on_file_input :
  userInputElement3 upload_world =
    (Throw InvalidStateError,
     {| trace := [Assign "user-input" "value" (VStr "Hi there!")];
        document := upload_page;
        setters := setters upload_world |}).
Proof.
  rewrite guarded_write. unfold upload_world, upload_page.
  cbn [document]. rewrite lookup_singleton_eq.
  unfold set_value. cbn [setters trace document]. rewrite lookup_singleton_eq.
  reflexivity.
Qed.

(** A text input stores the text without its line breaks. *)
Example text_input_strips_newlines :
  strip_newlines (String "H" (String "i" (String "010" (String "!" "")))) = "Hi!"%string
  ∧ ∀ page, text_setter "user-input" (VStr "Hi there!") page =
              Normal (alter (insert "value" (VStr "Hi there!")) "user-input" page).
Proof. split; [reflexivity | intros page; reflexivity]. Qed.

(** A statement that throws ends the script: what follows does not run. *)
Example unguarded_write_aborts :
  (userInputElement1;; console_log [VStr "not reached"]) (initial ∅) =
    (Throw TypeError, initial ∅).
Proof. reflexivity. Qed.

(** ** Optional chaining *)

Lemma Get_present (base : value) (key : string) :
  is_nullish base = false → ∃ v, Get base key = Normal v.
Proof. destruct base; simpl; intros; try discriminate; eauto. Qed.

Lemma optional_chain_returns (path : list string) (base : value) :
  ∃ result, optional_chain base path = Normal result.
Proof.
  revert base. induction path as [| key path IH]; intros base; simpl.
  - eauto.
  - destruct (is_nullish base) eqn:Hbase; [eauto |].
    destruct (Get_present base key Hbase) as [next ->]. apply IH.
Qed.

Lemma optional_chain_app (before rest : list string) (base : value) :
  optional_chain base (before ++ rest) =
    (link ← optional_chain base before; optional_chain link rest).
Proof.
  revert base. induction before as [| key before IH]; intros base; simpl.
  - reflexivity.
  - destruct (is_nullish base) eqn:Hbase.
    + destruct rest; reflexivity.
    + destruct (Get base key) as [next |]; [apply IH | reflexivity].
Qed.

Lemma optional_chain_absent (rest : list string) (link : value) :
  is_nullish link = true → rest ≠ [] → optional_chain link rest = Normal VUndefined.
Proof. intros Hlink Hrest. destruct rest; [done |]. simpl. by rewrite Hlink. Qed.

(** C9. A chain of optional accesses never throws; once the links read so
    far have produced [undefined] or [null], the result of the whole chain is
    absent too, and it is [undefined] when accesses were still to be made. *)
Theorem optional_chain_short_circuits (base : value) (before rest : list string) :
  ∃ result : value,
    optional_chain base (before ++ rest) = Normal result
    ∧ (∀ link : value,
         optional_chain base before = Normal link →
         is_nullish link = true →
         is_nullish result = true ∧ (rest ≠ [] → result = VUndefined)).
Proof.
  destruct (optional_chain_returns (before ++ rest) base) as [result Hresult].
  exists result. split; [exact Hresult |].
  intros link Hbefore Hlink.
  rewrite optional_chain_app, Hbefore in Hresult. simpl in Hresult.
  destruct rest as [| key rest].
  - injection Hresult as <-. done.
  - rewrite optional_chain_absent in Hresult by done.
    injection Hresult as <-. done.
Qed.

(** The fetched data without its [job]: the optional chain of line 220
    answers [undefined]. *)
Lemma optional_chain_short_circuits_witness :
  optional_chain (VObj {[ "id" := VStr "u1"; "name" := VStr "Geo" ]}) ["job"; "title"]
  = Normal VUndefined.
Proof.
  destruct (optional_chain_short_circuits
              (VObj {[ "id" := VStr "u1"; "name" := VStr "Geo" ]}) ["job"] ["title"])
    as (result & Hresult & Habsent).
  simpl app in Hresult. rewrite Hresult. f_equal.
  apply (Habsent VUndefined); [vm_compute; reflexivity | reflexivity | discriminate].
Defined.

(** Line 220 logs one value and never throws, whatever was fetched. *)
Lemma log_job_title_optional_safe (data : value) (w : world) :
  ∃ title, log_job_title_optional data w = (Normal tt, after w [Log [title]]).
Proof.
  unfold log_job_title_optional.
  destruct (optional_chain_returns ["job"; "title"] data) as [title Htitle].
  exists title. unfold mbind, M_bind, lift. by rewrite Htitle.
Qed.

(** Lines 214, 217 and 220 on the data as fetched, and on data without a
    [job], where the plain access of line 214 throws. *)
Example job_title_logged :
  (log_job_title fetchedUserData;;
   log_job_title_guarded fetchedUserData;;
   log_job_title_optional fetchedUserData) (initial ∅) =
    (Normal tt,
     after (initial ∅) [Log [VStr "CEO"]; Log [VStr "CEO"]; Log [VStr "CEO"]]).
Proof. vm_compute. reflexivity. Qed.

Example job_title_without_job :
  let data := VObj {[ "id" := VStr "u1"; "name" := VStr "Geo" ]} in
  log_job_title data (initial ∅) = (Throw TypeError, initial ∅)
  ∧ log_job_title_guarded data (initial ∅) =
      (Normal tt, after (initial ∅) [Log [VUndefined]])
  ∧ log_job_title_optional data (initial ∅) =
      (Normal tt, after (initial ∅) [Log [VUndefined]]).
Proof. vm_compute. repeat split. Qed.

(** ** Nullish coalescing *)

(** C8. [??] answers the fallback when the primary value is [null] or
    [undefined] and the primary value itself otherwise, falsy or not.  Line
    229 yields ["DEFAULT"] for the [null] input; for the empty string it
    yields the empty string where [||] (line 226) yields ["DEFAULT"], and
    likewise for zero. *)
Theorem nullish_coalesce_only_when_absent :
  (∀ primary fallback : value,
     (primary = VNull ∨ primary = VUndefined →
      nullish_coalesce primary fallback = fallback)
     ∧ (primary ≠ VNull → primary ≠ VUndefined →
        nullish_coalesce primary fallback = primary))
  ∧ storedDatas = VStr "DEFAULT"
  ∧ storedDatas_of (VStr "") = VStr ""
  ∧ storedData_of (VStr "") = VStr "DEFAULT"
  ∧ storedDatas_of (VStr "") ≠ storedData_of (VStr "")
  ∧ storedDatas_of (VNum Number.zero) = VNum Number.zero
  ∧ storedData_of (VNum Number.zero) = VStr "DEFAULT".
Proof.
  split; [| repeat split; discriminate].
  intros primary fallback. split.
  - intros [-> | ->]; reflexivity.
  - intros Hnull Hundefined. destruct primary; done.
Qed.

(** [undefined] takes the fallback; [false], falsy but present, is kept. *)
Lemma nullish_coalesce_only_when_absent_witness :
  nullish_coalesce VUndefined (VStr "DEFAULT") = VStr "DEFAULT"
  ∧ nullish_coalesce (VBool false) (VStr "DEFAULT") = VBool false.
Proof.
  destruct nullish_coalesce_only_when_absent as [Hchoice _].
  split.
  - apply (Hchoice VUndefined (VStr "DEFAULT")). right. reflexivity.
  - apply (Hchoice (VBool false) (VStr "DEFAULT")); discriminate.
Defined.

(** * Further properties *)

(** ** Strings *)

Lemma append_cons (c : ascii) (s t : string) :
  String c s +:+ t = String c (s +:+ t).
Proof. reflexivity. Qed.

Lemma append_assoc (s t u : string) : (s +:+ t) +:+ u = s +:+ (t +:+ u).
Proof.
  induction s as [| c s IH]; [done |].
  rewrite !append_cons. by f_equal.
Qed.

Lemma append_nil_r (s : string) : s +:+ "" = s.
Proof.
  induction s as [| c s IH]; [done |].
  rewrite append_cons. by f_equal.
Qed.

Lemma prefix_append (s t : string) : String.prefix s (s +:+ t) = true.
Proof.
  induction s as [| c s IH]; [by destruct t |]. simpl.
  destruct (ascii_dec c c); [exact IH | done].
Qed.

Lemma prefix_split (p s : string) :
  String.prefix p s = true → ∃ rest, s = p +:+ rest.
Proof.
  revert s. induction p as [| a p IH]; intros s Hp.
  - by exists s.
  - destruct s as [| b s]; [done |]. simpl in Hp.
    destruct (ascii_dec a b) as [-> |]; [| done].
    destruct (IH s Hp) as [rest ->]. by exists rest.
Qed.

Lemma rev_app_append (s t u : string) :
  String.rev_app s t +:+ u = String.rev_app s (t +:+ u).
Proof. revert t. induction s as [| c s IH]; intros t; [done |]. apply IH. Qed.

Lemma pieces_nonempty (sep : string) (skip : nat) (piece s : string) :
  pieces sep skip piece s ≠ [].
Proof.
  revert skip piece. induction s as [| c s IH]; intros skip piece;
    cbn [pieces]; [discriminate |].
  destruct skip; [| apply IH].
  destruct (String.prefix sep (String c s)); [discriminate | apply IH].
Qed.

Lemma concat_cons (sep x : string) (l : list string) :
  l ≠ [] → String.concat sep (x :: l) = x +:+ sep +:+ String.concat sep l.
Proof. by destruct l. Qed.

(** With [length pre] characters of a separator still to skip, the pieces of
    [pre +:+ rest] join back to the piece in hand followed by [rest]. *)
Lemma pieces_concat (sep : string) (s : string) :
  sep ≠ ""%string →
  ∀ pre rest piece : string,
    s = pre +:+ rest →
    String.concat sep (pieces sep (String.length pre) piece s) =
      String.rev piece +:+ rest.
Proof.
  intros Hsep. induction s as [| c s IH]; intros pre rest piece Hs.
  - destruct pre; [| done]. change ("" = rest)%string in Hs. subst rest.
    cbn [String.length pieces String.concat]. by rewrite append_nil_r.
  - destruct pre as [| a pre].
    + change (String c s = rest) in Hs. subst rest. cbn [String.length pieces].
      destruct (String.prefix sep (String c s)) eqn:Hprefix.
      * destruct sep as [| a sep']; [done |].
        destruct (prefix_split _ _ Hprefix) as [rest' Hrest'].
        rewrite append_cons in Hrest'. injection Hrest' as -> ->.
        rewrite concat_cons by apply pieces_nonempty.
        cbn [String.length].
        replace (S (String.length sep') - 1) with (String.length sep') by lia.
        rewrite (IH sep' rest' ""%string eq_refl).
        by rewrite <- append_cons.
      * pose proof (IH ""%string s (String c piece) eq_refl) as Hnext.
        cbn [String.length] in Hnext. rewrite Hnext.
        unfold String.rev. cbn [String.rev_app]. by rewrite !rev_app_append.
    + rewrite append_cons in Hs. injection Hs as -> ->.
      cbn [String.length pieces]. by apply IH.
Qed.

Lemma characters_concat (s : string) : String.concat "" (characters s) = s.
Proof.
  induction s as [| c s IH]; [done |]. simpl.
  destruct s as [| c' s]; [done |]. simpl in *. by rewrite IH.
Qed.

(** X1. Joining the pieces of [s.split(separator)] with the separator gives
    [s] back, for every string and every separator, the empty one
    included. *)
Theorem split_join (s separator : string) :
  String.concat separator (split s separator) = s.
Proof.
  unfold split. destruct (String.eqb_spec separator "") as [-> | Hsep].
  - apply characters_concat.
  - apply (pieces_concat separator s Hsep ""%string s ""%string eq_refl).
Qed.

Lemma chars_rev_app (c : ascii) (a b : string) :
  In c (list_ascii_of_string (String.rev_app a b))
  ↔ In c (list_ascii_of_string a) ∨ In c (list_ascii_of_string b).
Proof.
  revert b. induction a as [| x a IH]; intros b; simpl.
  - tauto.
  - rewrite IH. simpl. tauto.
Qed.

Lemma pieces_without_separator (c : ascii) (s piece : string) :
  ¬ In c (list_ascii_of_string piece) →
  ∀ p, In p (pieces (String c "") 0 piece s) → ¬ In c (list_ascii_of_string p).
Proof.
  revert piece. induction s as [| x s IH]; intros piece Hpiece p Hp.
  - simpl in Hp. destruct Hp as [<- | []].
    unfold String.rev. rewrite chars_rev_app. simpl. tauto.
  - cbn [pieces] in Hp. simpl String.prefix in Hp.
    destruct (ascii_dec c x) as [<- | Hx].
    + replace (String.prefix "" s) with true in Hp by (by destruct s).
      simpl in Hp. destruct Hp as [<- | Hp].
      * unfold String.rev. rewrite chars_rev_app. simpl. tauto.
      * apply (IH ""%string); [simpl; tauto | exact Hp].
    + apply (IH (String x piece)); [| exact Hp].
      simpl. intros [-> | Hin]; [done | by apply Hpiece].
Qed.

(** X2. When the separator is a single character, as on line 204, no piece
    of [s.split(separator)] contains it. *)
Theorem split_pieces_free_of_separator (s : string) (c : ascii) (p : string) :
  In p (split s (String c "")) → ¬ In c (list_ascii_of_string p).
Proof.
  unfold split. simpl. apply pieces_without_separator. simpl. tauto.
Qed.

(** The first piece of line 204 holds no space. *)
Lemma split_pieces_free_of_separator_witness :
  ¬ In " "%char (list_ascii_of_string "Geo").
Proof.
  apply (split_pieces_free_of_separator "Geo Sauer" " "%char "Geo").
  simpl. left. reflexivity.
Defined.

(** ** Function overloads, continued *)

(** X3. On its declared inputs [add] computes exactly what the built-in [+]
    computes: the [typeof] test selects between two branches that agree
    with [+]. *)
Theorem add_is_plus (a b : Combinable) :
  add (Combinable_value a) (Combinable_value b) =
    js_plus (Combinable_value a) (Combinable_value b).
Proof. destruct a, b; reflexivity. Qed.

(** X4. The implementation keeps the four overload signatures of lines
    190-193: the result is a number when both inputs are numbers and a
    string in the three other cases, and no case throws. *)
Theorem add_result_type (a b : Combinable) :
  ∃ r : value,
    add (Combinable_value a) (Combinable_value b) = Normal r
    ∧ typeof r = match a, b with
                 | CNum _, CNum _ => "number"
                 | _, _ => "string"
                 end.
Proof. destruct a, b; eexists; split; reflexivity. Qed.

(** X5. Nested calls of [add] on three strings give the same string however
    they are grouped; with numbers among the inputs the grouping shows:
    [add(add(1, 2), "3")] is ["33"] and [add(1, add(2, "3"))] is ["123"]. *)
Theorem add_grouping (s t u : string) :
  (st ← add (VStr s) (VStr t); add st (VStr u)) =
    (tu ← add (VStr t) (VStr u); add (VStr s) tu)
  ∧ (r ← add (VNum (Number.of_Z 1)) (VNum (Number.of_Z 2)); add r (VStr "3"))
      = Normal (VStr "33")
  ∧ (r ← add (VNum (Number.of_Z 2)) (VStr "3"); add (VNum (Number.of_Z 1)) r)
      = Normal (VStr "123").
Proof.
  split; [| split; vm_compute; reflexivity].
  change (Normal (VStr ((s +:+ t) +:+ u)) = Normal (VStr (s +:+ (t +:+ u)))).
  by rewrite append_assoc.
Qed.

(** X6. Outside its declared inputs [add] is not [+]: with a string on one
    side and [null] or [undefined] on the other, the call of [toString()] on
    line 196 throws, where [+] would concatenate ["null"] or
    ["undefined"]. *)
Theorem add_nullish_with_string (s : string) :
  add VNull (VStr s) = Throw TypeError
  ∧ add (VStr s) VUndefined = Throw TypeError
  ∧ js_plus VNull (VStr s) = Normal (VStr ("null" +:+ s))
  ∧ js_plus (VStr s) VUndefined = Normal (VStr (s +:+ "undefined")).
Proof. repeat split. Qed.

(** ** Type guards, continued *)

(** X7. What [printEmployeeInformation] does with an argument that is not a
    record: on [undefined] and [null] the read of [name] throws before
    anything is logged; on a Boolean, a number or a string the name line is
    logged with [undefined] and the [in] test then throws; on an array or a
    [Date] only the name line is logged. *)
Theorem printEmployeeInformation_non_records (w : world) :
  printEmployeeInformation VUndefined w = (Throw TypeError, w)
  ∧ printEmployeeInformation VNull w = (Throw TypeError, w)
  ∧ (∀ b, printEmployeeInformation (VBool b) w =
            (Throw TypeError, after w [Log [VStr "Name: "; VUndefined]]))
  ∧ (∀ n, printEmployeeInformation (VNum n) w =
            (Throw TypeError, after w [Log [VStr "Name: "; VUndefined]]))
  ∧ (∀ s, printEmployeeInformation (VStr s) w =
            (Throw TypeError, after w [Log [VStr "Name: "; VUndefined]]))
  ∧ (∀ elems, printEmployeeInformation (VArr elems) w =
                (Normal tt, after w [Log [VStr "Name: "; VUndefined]]))
  ∧ (∀ shown, printEmployeeInformation (VDate shown) w =
                (Normal tt, after w [Log [VStr "Name: "; VUndefined]])).
Proof.
  split; [reflexivity |]. split; [reflexivity |].
  repeat split; intros; try reflexivity; destruct w; reflexivity.
Qed.

(** X8. Fields other than [name], [privileges] and [startDate] are not
    looked at: adding or overwriting one changes nothing in what is
    logged. *)
Theorem printEmployeeInformation_ignores_other_fields
  (props : gmap string value) (key : string) (v : value) (w : world) :
  key ≠ "name" → key ≠ "privileges" → key ≠ "startDate" →
  printEmployeeInformation (VObj (<[key := v]> props)) w =
    printEmployeeInformation (VObj props) w.
Proof.
  intros Hname Hprivileges HstartDate. unfold printEmployeeInformation. run.
  by rewrite !lookup_insert_ne.
Qed.

(** An employee with a salary logs what the same employee logs without. *)
Lemma printEmployeeInformation_ignores_other_fields_witness :
  printEmployeeInformation
    (VObj (<["salary" := VNum (Number.of_Z 1000)]> {[ "name" := VStr "Kallyn" ]}))
    (initial ∅)
  = printEmployeeInformation (VObj {[ "name" := VStr "Kallyn" ]}) (initial ∅).
Proof.
  apply printEmployeeInformation_ignores_other_fields; discriminate.
Defined.

(** ** Classes, continued *)

(** X9. The [instanceof] test of line 92 holds exactly for the vehicles that
    have a [loadCargo] method, every vehicle has [drive], and calling
    [loadCargo] on a [Car] without the test would throw. *)
Theorem loadCargo_guard (vehicle : Vehicle) (args : list value) (w : world) :
  (instanceof vehicle "Truck" = true ↔ is_Some (method vehicle "loadCargo"))
  ∧ is_Some (method vehicle "drive")
  ∧ call Car "loadCargo" args w = (Throw TypeError, w).
Proof.
  split; [| split; [| reflexivity]].
  - destruct vehicle; simpl; split; intros H; try done.
    all: eauto.
  - destruct vehicle; simpl; eauto.
Qed.

(** X10. What [useVehicle] writes to the console: ["Driving..."] for a [Car];
    ["Driving a truck..."] and then ["loading cargo...1000"] for a [Truck].
    The page is left as it was. *)
Theorem useVehicle_console (vehicle : Vehicle) (w : world) :
  ∃ evs : list event,
    useVehicle vehicle w = (Normal tt, after w evs)
    ∧ console evs =
        match vehicle with
        | Car => [[VStr "Driving..."]]
        | Truck => [[VStr "Driving a truck..."]; [VStr "loading cargo...1000"]]
        end.
Proof.
  destruct vehicle; eexists; split;
    [apply useVehicle_Car | | apply useVehicle_Truck |]; vm_compute; reflexivity.
Qed.

(** X11. [loadCargo] logs ["loading cargo..."] followed by the text of the
    amount, for every number; called without an amount it logs
    ["loading cargo...undefined"]. *)
Theorem loadCargo_logs_amount (n : number) (w : world) :
  call Truck "loadCargo" [VNum n] w =
    (Normal tt,
     after w [Invoke "Truck" "loadCargo" [VNum n];
              Log [VStr ("loading cargo..." +:+ Number.toString n)]])
  ∧ call Truck "loadCargo" [] w =
      (Normal tt,
       after w [Invoke "Truck" "loadCargo" [];
                Log [VStr "loading cargo...undefined"]]).
Proof.
  split; unfold call; simpl; unfold Truck_loadCargo; run;
    unfold after; simpl; by rewrite <- app_assoc.
Qed.

(** ** Discriminated union, continued *)

(** X12. A value tagged ["bird"] without a [flyingSpeed] field, or tagged
    ["horse"] without a [runningSpeed] field, is reported with an undefined
    speed; nothing is thrown. *)
Theorem moveAnimal_missing_speed (props : gmap string value) (w : world) :
  (props !! "type" = Some (VStr "bird") → props !! "flyingSpeed" = None →
   moveAnimal (VObj props) w =
     (Normal tt, after w [Log [VStr "Moving with speed: undefined"]]))
  ∧ (props !! "type" = Some (VStr "horse") → props !! "runningSpeed" = None →
     moveAnimal (VObj props) w =
       (Normal tt, after w [Log [VStr "Moving with speed: undefined"]])).
Proof.
  split; intros Htype Hspeed.
  - rewrite moveAnimal_bird, Hspeed by done. reflexivity.
  - rewrite moveAnimal_horse, Hspeed by done. reflexivity.
Qed.

(** A bird that carries the speed of a horse. *)
Lemma moveAnimal_missing_speed_witness :
  moveAnimal (VObj {[ "type" := VStr "bird"; "runningSpeed" := VNum (Number.of_Z 40) ]})
             (initial ∅) =
    (Normal tt, after (initial ∅) [Log [VStr "Moving with speed: undefined"]]).
Proof.
  destruct (moveAnimal_missing_speed
              {[ "type" := VStr "bird"; "runningSpeed" := VNum (Number.of_Z 40) ]}
              (initial ∅)) as [Hbird _].
  apply Hbird; vm_compute; reflexivity.
Defined.

(** The conversion to a string throws nothing but a [TypeError]. *)
Lemma ToString_throws (v : value) (e : error) :
  ToString v = Throw e → e = TypeError.
Proof.
  revert v e. fix IH 1. intros v e.
  destruct v as [| | b | n | s | props | elems | shown]; simpl;
    try discriminate.
  - destruct (props !! "toString"); [congruence | discriminate].
  - intros Hthrow.
    assert (∀ texts : completion (list string),
              texts = (fix each (l : list value) : completion (list string) :=
                         match l with
                         | [] => Normal []
                         | x :: l' =>
                             s ← (if is_nullish x then Normal "" else ToString x);
                             ss ← each l';
                             Normal (s :: ss)
                         end) elems →
              ∀ e', texts = Throw e' → e' = TypeError) as Heach.
    { clear Hthrow. induction elems as [| x elems IHelems]; intros texts -> e'.
      - discriminate.
      - destruct (is_nullish x) eqn:Hx; simpl.
        + destruct ((fix each (l : list value) : completion (list string) :=
                       match l with
                       | [] => Normal []
                       | x :: l' =>
                           s ← (if is_nullish x then Normal "" else ToString x);
                           ss ← each l';
                           Normal (s :: ss)
                       end) elems) eqn:Hrest; simpl; [discriminate |].
          intros [= <-]. by apply (IHelems _ eq_refl).
        + destruct (ToString x) as [text | ex] eqn:Htext; simpl.
          * destruct ((fix each (l : list value) : completion (list string) :=
                         match l with
                         | [] => Normal []
                         | x :: l' =>
                             s ← (if is_nullish x then Normal "" else ToString x);
                             ss ← each l';
                             Normal (s :: ss)
                         end) elems) eqn:Hrest; simpl; [discriminate |].
            intros [= <-]. by apply (IHelems _ eq_refl).
          * intros [= <-]. by apply (IH x). }
    destruct ((fix each (l : list value) : completion (list string) :=
                 match l with
                 | [] => Normal []
                 | x :: l' =>
                     s ← (if is_nullish x then Normal "" else ToString x);
                     ss ← each l';
                     Normal (s :: ss)
                 end) elems) as [texts | e'] eqn:Htexts; simpl in Hthrow;
      [discriminate |].
    injection Hthrow as <-. by apply (Heach _ eq_refl).
Qed.

Lemma report_one_line_or_nothing (speed : value) (w : world) :
  (∃ line : string,
     report speed w = (Normal tt, after w [Log [VStr line]])
     ∧ String.prefix "Moving with speed: " line = true)
  ∨ report speed w = (Throw TypeError, w).
Proof.
  unfold report. rewrite js_plus_string_l.
  destruct (ToString speed) as [text | e] eqn:Htext;
    [left | right; by rewrite (ToString_throws speed e Htext)].
  exists ("Moving with speed: " +:+ text)%string. split; [reflexivity |].
  apply prefix_append.
Qed.

(** X13. Whatever it is given, [moveAnimal] either logs exactly one line, a
    string that starts with ["Moving with speed: "], or throws a [TypeError]
    having logged nothing; the page is left as it was. *)
Theorem moveAnimal_one_line_or_nothing (animal : value) (w : world) :
  (∃ line : string,
     moveAnimal animal w = (Normal tt, after w [Log [VStr line]])
     ∧ String.prefix "Moving with speed: " line = true)
  ∨ moveAnimal animal w = (Throw TypeError, w).
Proof.
  destruct (is_nullish animal) eqn:Hanimal.
  { right. destruct animal; try discriminate; reflexivity. }
  destruct (Get_present animal "type" Hanimal) as [type Htype].
  destruct (Get_present animal "flyingSpeed" Hanimal) as [flying Hflying].
  destruct (Get_present animal "runningSpeed" Hanimal) as [running Hrunning].
  assert (∃ speed, moveAnimal animal w = report speed w) as [speed ->].
  { unfold moveAnimal, report, mbind, M_bind, mret, M_ret, lift.
    rewrite Htype.
    destruct (strict_eq_string type "bird"); [rewrite Hflying; eauto |].
    destruct (strict_eq_string type "horse"); [rewrite Hrunning; eauto | eauto]. }
  apply report_one_line_or_nothing.
Qed.

(** ** Statements that only write to the console *)

Lemma after_nil (w : world) : after w [] = w.
Proof. destruct w. unfold after. simpl. by rewrite app_nil_r. Qed.

Lemma console_only_lift {A : Type} (c : completion A) : console_only (lift c).
Proof. intros w. unfold lift. simpl. by rewrite after_nil. Qed.

Lemma console_only_ret {A : Type} (a : A) : console_only (mret a : M A).
Proof. intros w. unfold mret, M_ret. simpl. by rewrite after_nil. Qed.

Lemma console_only_emit (ev : event) : console_only (emit ev).
Proof. intros w. reflexivity. Qed.

Lemma console_only_bind {A B : Type} (m : M A) (k : A → M B) :
  console_only m → (∀ a, console_only (k a)) → console_only (m ≫= k).
Proof.
  intros Hm Hk w. unfold mbind, M_bind.
  rewrite (Hm w).
  destruct (m (initial ∅)) as [[a | e] w0] eqn:Hinit; simpl.
  - rewrite (Hk a (after w (trace w0))), (Hk a w0). simpl.
    unfold after. simpl. by rewrite <- app_assoc.
  - reflexivity.
Qed.

Ltac console_only :=
  repeat first
    [ apply console_only_bind; [| intros ?]
    | apply console_only_lift
    | apply console_only_ret
    | apply console_only_emit
    | match goal with
      | |- console_only (if ?b then _ else _) => destruct b
      end ].

(** X14. [printEmployeeInformation], [useVehicle] and [moveAnimal] keep no
    state and read none: whatever was logged before and whatever the page
    holds, a call completes as it does in the empty world and appends the
    same events, so calling again with the same argument logs the same lines
    again. *)
Theorem demonstrations_console_only (emp animal : value) (vehicle : Vehicle) :
  console_only (printEmployeeInformation emp)
  ∧ console_only (useVehicle vehicle)
  ∧ console_only (moveAnimal animal).
Proof.
  split; [| split].
  - unfold printEmployeeInformation, console_log. console_only.
  - unfold useVehicle, call. destruct vehicle; simpl;
      unfold Car_drive, Truck_drive, Truck_loadCargo, console_log; console_only.
  - unfold moveAnimal, console_log. console_only.
Qed.

(** ** Type casting, continued *)

(** X15. After the guarded write of lines 164-167 on an element that takes
    the text (a text input, or an element without a [value] attribute), the
    [value] field of the element reads ["Hi there!"]; every other element,
    every other field of the element and the set of elements of the page are
    as before. *)
Theorem guarded_write_round_trip
  (w : world) (element : gmap string value) (id field : string) :
  document w !! "user-input" = Some element →
  takes_text w "user-input" "Hi there!" →
  field_of (userInputElement3 w).2 "user-input" "value" = Some (VStr "Hi there!")
  ∧ (id ≠ "user-input" →
     document (userInputElement3 w).2 !! id = document w !! id)
  ∧ (field ≠ "value" →
     field_of (userInputElement3 w).2 "user-input" field =
       field_of w "user-input" field)
  ∧ dom (document (userInputElement3 w).2) = dom (document w).
Proof.
  intros Hfound Htakes.
  rewrite guarded_write, Hfound, (set_value_taken w element) by done.
  unfold field_of. simpl. repeat split.
  - rewrite lookup_insert_eq. simpl. apply lookup_insert_eq.
  - intros Hid. by rewrite lookup_insert_ne.
  - intros Hfield. rewrite lookup_insert_eq, Hfound. simpl.
    by rewrite lookup_insert_ne.
  - rewrite dom_insert_L. apply elem_of_dom_2 in Hfound.
    apply set_eq. intros k. rewrite elem_of_union, elem_of_singleton.
    split; [intros [-> | Hk]; done | by right].
Qed.

Lemma form_world_takes_text : takes_text form_world "user-input" "Hi there!".
Proof.
  unfold takes_text, form_world. cbn [setters].
  rewrite lookup_singleton_eq. intros page. reflexivity.
Qed.

(** The form with a text input: the draft is replaced, the paragraph and
    the tag name stay. *)
Lemma guarded_write_round_trip_witness :
  field_of (userInputElement3 form_world).2 "user-input" "value" =
    Some (VStr "Hi there!")
  ∧ document (userInputElement3 form_world).2 !! "message-output" =
      Some paragraph
  ∧ field_of (userInputElement3 form_world).2 "user-input" "tagName" =
      Some (VStr "INPUT").
Proof.
  destruct (guarded_write_round_trip form_world
              {[ "value" := VStr "draft"; "tagName" := VStr "INPUT" ]}
              "message-output" "tagName")
    as (Hvalue & Hother & Hfield & _);
    [vm_compute; reflexivity | apply form_world_takes_text |].
  split; [exact Hvalue |].
  split; [rewrite Hother by discriminate | rewrite Hfield by discriminate];
    vm_compute; reflexivity.
Defined.

(** X16. The three blocks of lines 154-167 in sequence: without an element
    ["user-input"] the script stops at the first write, line 155, and
    nothing has changed; with an element that takes the text, three writes
    are made and the page ends as after a single write; with an element
    whose setter rejects the text, the script stops at line 155 with the
    setter's exception, one write attempted and the page as it was. *)
Theorem casts_compose (w : world) :
  (document w !! "user-input" = None → casts w = (Throw TypeError, w))
  ∧ (∀ element : gmap string value,
       document w !! "user-input" = Some element →
       takes_text w "user-input" "Hi there!" →
       casts w =
         (Normal tt,
          {| trace := trace w ++ [Assign "user-input" "value" (VStr "Hi there!");
                                  Assign "user-input" "value" (VStr "Hi there!");
                                  Assign "user-input" "value" (VStr "Hi there!")];
             document := document (written w element);
             setters := setters w |}))
  ∧ (∀ (element : gmap string value) setter (e : error),
       document w !! "user-input" = Some element →
       setters w !! "user-input" = Some setter →
       setter (VStr "Hi there!") (document w) = Throw e →
       casts w =
         (Throw e, after w [Assign "user-input" "value" (VStr "Hi there!")])).
Proof.
  unfold casts, mbind, M_bind.
  change userInputElement2 with userInputElement1.
  rewrite unguarded_write. split; [| split].
  - by intros ->.
  - intros element Hfound Htakes.
    rewrite Hfound, (set_value_taken w element) by done.
    assert (∀ w' element',
              setters w' = setters w → document w' !! "user-input" = Some element' →
              set_value (Element "user-input") (VStr "Hi there!") w' =
                (Normal tt, written w' element')) as Hagain.
    { intros w' element' Hsetters Hfound'. apply set_value_taken; [done |].
      unfold takes_text in *. by rewrite Hsetters. }
    rewrite unguarded_write.
    assert (document (written w element) !! "user-input"
            = Some (<["value" := VStr "Hi there!"]> element)) as Hfound1
      by apply lookup_insert_eq.
    rewrite Hfound1, (Hagain (written w element) _ eq_refl Hfound1).
    rewrite guarded_write.
    assert (document (written (written w element)
                        (<["value" := VStr "Hi there!"]> element)) !! "user-input"
            = Some (<["value" := VStr "Hi there!"]>
                      (<["value" := VStr "Hi there!"]> element))) as Hfound2
      by apply lookup_insert_eq.
    rewrite Hfound2,
      (Hagain (written (written w element) (<["value" := VStr "Hi there!"]> element))
         _ eq_refl Hfound2).
    unfold written. simpl. rewrite !insert_insert_eq. by rewrite <- !app_assoc.
  - intros element setter e Hfound Hsetter Hthrow. rewrite Hfound.
    unfold set_value. by rewrite Hsetter, Hthrow.
Qed.

(** The form with a text input takes the three writes; the page with a file
    input stops the script at the first. *)
Lemma casts_compose_witness :
  casts form_world =
    (Normal tt,
     {| trace := [Assign "user-input" "value" (VStr "Hi there!");
                  Assign "user-input" "value" (VStr "Hi there!");
                  Assign "user-input" "value" (VStr "Hi there!")];
        document :=
          document (written form_world
                      {[ "value" := VStr "draft"; "tagName" := VStr "INPUT" ]});
        setters := setters form_world |})
  ∧ casts upload_world =
      (Throw InvalidStateError,
       after upload_world [Assign "user-input" "value" (VStr "Hi there!")]).
Proof.
  split.
  - destruct (casts_compose form_world) as (_ & Htaken & _).
    apply Htaken; [vm_compute; reflexivity | apply form_world_takes_text].
  - destruct (casts_compose upload_world) as (_ & _ & Hrejected).
    apply (Hrejected
             {[ "value" := VStr ""; "tagName" := VStr "INPUT"; "type" := VStr "file" ]}
             file_setter).
    + apply lookup_singleton_eq.
    + apply lookup_singleton_eq.
    + reflexivity.
Defined.

(** X17. The guard of line 165 matters only when the element is missing:
    the guarded and the unguarded statements do the same exactly on the
    pages that have an element ["user-input"]. *)
Theorem guard_matters_when_absent (w : world) :
  userInputElement3 w = userInputElement1 w
  ↔ is_Some (document w !! "user-input").
Proof.
  rewrite guarded_write, unguarded_write.
  destruct (document w !! "user-input") as [element |].
  - split; [eauto | done].
  - split; [discriminate | intros Hsome; by apply is_Some_None in Hsome].
Qed.

(** ** Optional chaining, continued *)

(** X18. Optional chaining agrees with plain access wherever plain access
    succeeds, and answers [undefined] exactly where plain access throws. *)
Theorem optional_chain_refines_chain (base : value) (path : list string) :
  match chain base path with
  | Normal v => optional_chain base path = Normal v
  | Throw _ => optional_chain base path = Normal VUndefined
  end.
Proof.
  revert base. induction path as [| key path IH]; intros base; simpl.
  - reflexivity.
  - destruct base; simpl; try reflexivity; apply IH.
Qed.


(** ** Nullish coalescing, continued *)

(** X20. Lines 226 and 229 store the same value exactly for the inputs that
    are [null], [undefined] or truthy; on every falsy input that is present
    they differ. *)
Theorem stored_values_agree (input : value) :
  storedData_of input = storedDatas_of input
  ↔ is_nullish input = true ∨ ToBoolean input = true.
Proof.
  unfold storedDatas_of, storedData_of, nullish_coalesce, logical_or.
  split.
  - intros Heq. destruct (is_nullish input) eqn:Hn; [by left | right].
    destruct (ToBoolean input) eqn:Hb; [done |]. subst input. done.
  - intros [Hn | Hb].
    + rewrite Hn. destruct input; try discriminate; reflexivity.
    + rewrite Hb. destruct input; try reflexivity; discriminate.
Qed.

(** X21. What is stored can be used without a further check: the value of
    line 229 is never [null] or [undefined], the value of line 226 is always
    truthy, and applying either default a second time changes nothing. *)
Theorem stored_values_usable (input : value) :
  is_nullish (storedDatas_of input) = false
  ∧ ToBoolean (storedData_of input) = true
  ∧ storedDatas_of (storedDatas_of input) = storedDatas_of input
  ∧ storedData_of (storedData_of input) = storedData_of input.
Proof.
  unfold storedDatas_of, storedData_of, nullish_coalesce, logical_or.
  repeat split.
  - destruct input; reflexivity.
  - destruct (ToBoolean input) eqn:H; [exact H | reflexivity].
  - destruct input; reflexivity.
  - destruct (ToBoolean input) eqn:H; [by rewrite H | reflexivity].
Qed.
